(** * no-if-else-case: the plugin controller of [src/index.ts]

    A shallow embedding of the TypeScript module: the three plain dispatch
    functions ([handleType], [handleTypeBySwitch], [handleType2]), the
    [CasePlugin] interface with the three plugins the module defines, and the
    class [PluginController] with its five methods, followed by the theorems
    about them. *)

From stdpp Require Import gmap strings list fin_maps.

Open Scope string_scope.
Open Scope list_scope.

(** ** Values

    [type CaseType = "A" | "B" | "N" | ""] is a union of string literals, and
    the module itself steps outside it with a cast ([["B", "C"] as
    CaseType[]]), so a tag is a string.  An array is an object: a value of
    type [CaseType[]] is a reference into the heap, and two array literals
    with the same elements are two different references. *)

Definition CaseType : Type := string.
Definition ref : Type := nat.

(** The union [CaseType | CaseType[]] of [CasePlugin.targetTypes] and of the
    first parameter of [run]. *)
Inductive Types : Type :=
| Tag (type : CaseType)
| Arr (types : ref).

#[global] Instance Types_eq_dec : EqDecision Types.
Proof. solve_decision. Defined.

Definition Types_encode (t : Types) : CaseType + ref :=
  match t with Tag s => inl s | Arr r => inr r end.
Definition Types_decode (x : CaseType + ref) : Types :=
  match x with inl s => Tag s | inr r => Arr r end.

#[global] Instance Types_countable : Countable Types.
Proof.
  refine (inj_countable' Types_encode Types_decode _).
  intros [s | r]; reflexivity.
Defined.

(** ** Exceptions

    Every [throw] of the module is [throw new Error(msg)]; calling a method
    that a value does not have raises a [TypeError]. *)
Inductive exn : Type :=
| Error (message : string)
| TypeError (message : string).

(** The two messages of the module. *)
Definition InvalidInput : exn := Error "param type is not valid".
Definition NotRegistered : exn := Error "types not exist in plugin map".

(** ** Computations with effects

    A computation runs on a state, leaves a state, and either returns a value
    or throws; what it did before throwing stays done. *)
Definition M (S A : Type) : Type := S -> (exn + A) * S.

Definition ret {S A} (a : A) : M S A := fun s => (inr a, s).
Definition throw {S A} (e : exn) : M S A := fun s => (inl e, s).
Definition bind {S A B} (m : M S A) (k : A -> M S B) : M S B :=
  fun s =>
    match m s with
    | (inr a, s') => k a s'
    | (inl e, s') => (inl e, s')
    end.
Definition get {S} : M S S := fun s => (inr s, s).
Definition modify {S} (f : S -> S) : M S unit := fun s => (inr tt, f s).

Declare Scope js_scope.
Delimit Scope js_scope with js.
Notation "x <- m ;; k" := (bind m (fun x => k))
  (at level 100, m at next level, right associativity) : js_scope.
Notation "m ;;; k" := (bind m (fun _ => k))
  (at level 100, right associativity) : js_scope.
Open Scope js_scope.

(** [Array.prototype.forEach] with a callback that may throw. *)
Fixpoint forEach {S A} (f : A -> M S unit) (l : list A) : M S unit :=
  match l with
  | [] => ret tt
  | x :: l' => f x ;;; forEach f l'
  end.


(** ** The plugin controller *)

Section Controller.

(** [World] is everything outside the controller that a plugin's callbacks
    can read or change (the heap, the dialogs shown, the console);
    [unknown] is the type of [params].  A callback is here a computation on
    the world: the callbacks of the module do no more than compare their
    argument and call [confirm].  A callback that calls the methods of
    [pluginController] is outside this type; [Reentrant] below has the
    controller with such callbacks. *)
Context {World unknown : Type}.

(** [interface CasePlugin]. *)
Record CasePlugin : Type := {
  condition : Types -> M World bool;
  action : unknown -> M World unit;
  targetTypes : Types;
}.

(** The calls the controller makes to the callbacks of its plugins, in
    order. *)
Inductive Call : Type :=
| CallCondition (plugin : CasePlugin) (types : Types)
| CallAction (plugin : CasePlugin) (params : unknown).

(** [class PluginController]: its one field is the private [Map], keyed by
    SameValueZero (strings by content, arrays by reference).  No method
    iterates over the map, so its insertion order is never observed. *)
Record PluginController : Type := {
  pluginMap : gmap Types CasePlugin;
}.

(** [new PluginController()]. *)
Definition new_PluginController : PluginController :=
  {| pluginMap := ∅ |}.

(** The program state a method call runs in: the controller it is called
    on ([this]), the world around it, and the callbacks called so far. *)
Record State : Type := {
  this : PluginController;
  world : World;
  calls : list Call;
}.

Definition set_pluginMap (f : gmap Types CasePlugin -> gmap Types CasePlugin)
    (st : State) : State :=
  {| this := {| pluginMap := f (pluginMap (this st)) |};
     world := world st; calls := calls st |}.

(** Calling a callback: the call is recorded, then the callback runs on
    the world. *)
Definition invoke {A} (c : Call) (f : M World A) : M State A :=
  fun st =>
    let '(r, w) := f (world st) in
    (r, {| this := this st; world := w; calls := calls st ++ [c] |}).

(** [use(plugin) { this.pluginMap.set(plugin.targetTypes, plugin); }] *)
Definition use (plugin : CasePlugin) : M State unit :=
  modify (set_pluginMap (fun m => <[targetTypes plugin := plugin]> m)).

(** [installPlugins(plugins) { plugins.forEach((p) => this.use(p)); }] *)
Definition installPlugins (plugins : list CasePlugin) : M State unit :=
  forEach (fun p => use p) plugins.

(** [run(types, params?)].  The values of the map are plugin objects, so
    [if (plugin)] asks whether [get] found one. *)
Definition run (types : Types) (params : unknown) : M State unit :=
  st <- get ;;
  match pluginMap (this st) !! types with
  | Some plugin =>
      b <- invoke (CallCondition plugin types) (condition plugin types) ;;
      if b : bool then invoke (CallAction plugin params) (action plugin params)
      else ret tt
  | None => throw NotRegistered
  end.

(** [unuse(types: CaseType[]) { this.pluginMap.delete(types); }]: the
    parameter is an array, so the key handed to [delete] is a reference. *)
Definition unuse (types : ref) : M State unit :=
  modify (set_pluginMap (fun m => delete (Arr types) m)).

(** [clearPlugins() { this.pluginMap.clear(); }] *)
Definition clearPlugins : M State unit :=
  modify (set_pluginMap (fun _ => ∅)).

End Controller.

Arguments CasePlugin : clear implicits.
Arguments Call : clear implicits.
Arguments PluginController : clear implicits.
Arguments State : clear implicits.

(** ** The module's own plugins and functions *)

Module Demo.

(** The values [params] takes in this module: [run] is only ever called
    without its second argument. *)
Inductive unknown : Type :=
| undefined
| value (v : Types).

(** The environment: the arrays allocated so far (a reference is an index
    into [heap]), the messages shown by [confirm] and those written by
    [console.warn]. *)
Record World : Type := {
  heap : list (list CaseType);
  dialogs : list string;
  warnings : list string;
}.

(** An array literal allocates a new array. *)
Definition array_literal (elems : list CaseType) : M World ref :=
  fun w =>
    (inr (length (heap w)),
     {| heap := heap w ++ [elems]; dialogs := dialogs w; warnings := warnings w |}).

(** Reading the elements of an array.  A reference held by a JavaScript
    program always points to an allocated array; the model throws on any
    other. *)
Definition elements (r : ref) : M World (list CaseType) :=
  fun w =>
    match heap w !! r with
    | Some elems => (inr elems, w)
    | None => (inl (TypeError "dangling reference"), w)
    end.

(** [confirm(message)]: the dialog is shown; no caller in the module looks
    at the answer. *)
Definition confirm (message : string) : M World unit :=
  modify (fun w =>
    {| heap := heap w; dialogs := dialogs w ++ [message]; warnings := warnings w |}).

(** [console.warn(message)]. *)
Definition console_warn (message : string) : M World unit :=
  modify (fun w =>
    {| heap := heap w; dialogs := dialogs w; warnings := warnings w ++ [message] |}).

(** [Array.prototype.includes] on an array of strings. *)
Definition includes (elems : list CaseType) (v : CaseType) : bool :=
  bool_decide (v ∈ elems).

(** [function handleType(type: CaseType)]. *)
Definition handleType (type : CaseType) : M World unit :=
  if String.eqb type "" then throw InvalidInput
  else if String.eqb type "A" then confirm "I am A case"
  else if String.eqb type "B" then confirm "I am B case"
  else if String.eqb type "N" then confirm "I am N case"
  else ret tt.

(** [function handleTypeBySwitch(type: CaseType)]. *)
Definition handleTypeBySwitch (type : CaseType) : M World unit :=
  if String.eqb type "" then throw InvalidInput
  else if String.eqb type "A" then confirm "I am A case"
  else if String.eqb type "B" then confirm "I am B case"
  else if String.eqb type "N" then confirm "I am N case"
  else console_warn "type is not handled".


(** [const typeCaseMap]: the own properties of the object literal, three
    functions with empty bodies under the keys [A], [B] and [N]. *)
Definition typeCaseMap : gmap string (unknown -> M World unit) :=
  <["A" := fun _ => ret tt]>
    (<["B" := fun _ => ret tt]>
      (<["N" := fun _ => ret tt]> ∅)).

Section PropertyAccess.

(** The object literal inherits from [Object.prototype], which belongs to
    the JavaScript runtime and not to the module: it is a parameter.
    [Object_prototype name] is [None] when no property [name] is inherited
    (or its value is falsy), and otherwise what calling the inherited value
    does: [toString] returns, a value that is no function, such as that of
    [__proto__], throws a [TypeError]. *)
Variable Object_prototype : string -> option (unknown -> M World unit).

(** [typeCaseMap[type]]: an own property first, then an inherited one. *)
Definition typeCaseMap_get (type : CaseType) : option (unknown -> M World unit) :=
  match typeCaseMap !! type with
  | Some caseFunc => Some caseFunc
  | None => Object_prototype type
  end.

(** [function handleType2(type: CaseType)]. *)
Definition handleType2 (type : CaseType) : M World unit :=
  match typeCaseMap_get type with
  | None => throw InvalidInput
  | Some caseFunc => caseFunc undefined
  end.

End PropertyAccess.

(** The module is loaded in an empty world; the only array literal
    evaluated at load time is the [targetTypes] of [casePluginBOrC]. *)
Definition empty_world : World :=
  {| heap := []; dialogs := []; warnings := [] |}.
Definition BOrC_targetTypes : ref := length (heap empty_world).
Definition module_world : World := snd (array_literal ["B"; "C"] empty_world).

(** [const casePluginA]. *)
Definition casePluginA : CasePlugin World unknown := {|
  condition := fun type => ret (bool_decide (Tag "A" = type));
  action := fun params => confirm "I am A case";
  targetTypes := Tag "A";
|}.

(** [const casePluginBOrC].  Its condition calls [types.filter], which a
    string does not have. *)
Definition casePluginBOrC : CasePlugin World unknown := {|
  condition := fun types =>
    match types with
    | Arr r =>
        elems <- elements r ;;
        target <- elements BOrC_targetTypes ;;
        ret (negb (Nat.eqb (length (filter (fun v => includes target v = true) elems)) 0))
    | Tag _ => throw (TypeError "types.filter is not a function")
    end;
  action := fun params => confirm "I am B Or C case";
  targetTypes := Arr BOrC_targetTypes;
|}.

(** [const casePluginN]. *)
Definition casePluginN : CasePlugin World unknown := {|
  condition := fun type => ret (bool_decide (Tag "N" = type));
  action := fun params => confirm "I am N case";
  targetTypes := Tag "N";
|}.

(** [const pluginController = new PluginController()]. *)
Definition pluginController : PluginController World unknown :=
  new_PluginController.

(** The program state once the module is loaded. *)
Definition loaded : State World unknown :=
  {| this := pluginController; world := module_world; calls := [] |}.

(** Evaluating an expression of the world from inside a method call. *)
Definition eval {A} (f : M World A) : M (State World unknown) A :=
  fun st =>
    let '(r, w) := f (world st) in
    (r, {| this := this st; world := w; calls := calls st |}).

(** [const handleClick = (types) => { pluginController.run(types); }] *)
Definition handleClick (types : Types) : M (State World unknown) unit :=
  run types undefined.

(** [function Demo()]. *)
Definition Demo : M (State World unknown) unit :=
  installPlugins [casePluginA; casePluginBOrC; casePluginN] ;;;
  handleClick (Tag "A") ;;;
  handleClick (Tag "B") ;;;
  (types <- eval (array_literal ["B"; "C"]) ;; handleClick (Arr types)) ;;;
  handleClick (Tag "N") ;;;
  clearPlugins.

End Demo.

(** ** What a call did *)

Section Observations.

Context {World unknown : Type}.
Implicit Types (st : State World unknown) (H : CasePlugin World unknown).

(** The actions among a list of calls, each with the [params] it got. *)
Fixpoint invoked_actions (cs : list (Call World unknown))
    : list (CasePlugin World unknown * unknown) :=
  match cs with
  | [] => []
  | CallCondition _ _ :: cs' => invoked_actions cs'
  | CallAction plugin params :: cs' => (plugin, params) :: invoked_actions cs'
  end.

(** The calls a computation [m] adds to the log when started in [st]. *)
Definition calls_during {A} (m : M (State World unknown) A) st
    : list (Call World unknown) :=
  drop (length (calls st)) (calls (snd (m st))).

End Observations.

(** ** The module's plugins in the controller *)

Module DemoFacts.
Import Demo.

(** The controller after [installPlugins([casePluginA, casePluginBOrC,
    casePluginN])], the first statement of [Demo]. *)
Definition installed : State World unknown :=
  snd (installPlugins [casePluginA; casePluginBOrC; casePluginN] loaded).

(** [{ ...casePluginA, targetTypes: "N" }]: the callbacks of [casePluginA],
    registered under another key.  Its condition still compares with
    [casePluginA.targetTypes]. *)
Definition casePluginA_under_N : CasePlugin World unknown := {|
  condition := condition casePluginA;
  action := action casePluginA;
  targetTypes := Tag "N";
|}.

(** A plugin written like [casePluginA] with the empty tag for key; [""]
    is a member of [CaseType]. *)
Definition casePluginEmpty : CasePlugin World unknown := {|
  condition := fun type => ret (bool_decide (Tag "" = type));
  action := fun params => confirm "I am the empty case";
  targetTypes := Tag "";
|}.

(** Registering [casePluginBOrC], then calling [run] with a new array
    literal [["B", "C"]], as [Demo] does. *)
Definition run_with_array_literal : M (State World unknown) unit :=
  use casePluginBOrC ;;;
  types <- eval (array_literal ["B"; "C"]) ;;
  run (Arr types) undefined.

(** The same with the array that [casePluginBOrC.targetTypes] holds. *)
Definition run_with_targetTypes : M (State World unknown) unit :=
  use casePluginBOrC ;;;
  run (targetTypes casePluginBOrC) undefined.

Definition run_unuse_run_with_targetTypes : M (State World unknown) unit :=
  use casePluginBOrC ;;;
  run (targetTypes casePluginBOrC) undefined ;;;
  unuse BOrC_targetTypes ;;;
  run (targetTypes casePluginBOrC) undefined.

(** [unuse] with a new array literal, then [run] with the registered
    array. *)
Definition unuse_array_literal_then_run : M (State World unknown) unit :=
  use casePluginBOrC ;;;
  (types <- eval (array_literal ["B"; "C"]) ;; unuse types) ;;;
  run (targetTypes casePluginBOrC) undefined.

(** [{ ...casePluginBOrC, targetTypes: "B" }]: the callbacks of
    [casePluginBOrC] under a single tag. *)
Definition casePluginBOrC_under_B : CasePlugin World unknown := {|
  condition := condition casePluginBOrC;
  action := action casePluginBOrC;
  targetTypes := Tag "B";
|}.


(** Every array that is a key of the map has been allocated: the invariant
    of a heap in which references come from array literals only. *)
Definition keys_allocated (st : State World unknown) : bool :=
  forallb
    (fun kv : Types * CasePlugin World unknown =>
       match fst kv with
       | Arr r => Nat.ltb r (length (heap (world st)))
       | Tag _ => true
       end)
    (map_to_list (pluginMap (this st))).

(** [run] and [unuse] called with an array literal of the given elements. *)
Definition run_array_literal (elems : list CaseType) (params : unknown)
    : M (State World unknown) unit :=
  types <- eval (array_literal elems) ;; run (Arr types) params.

Definition unuse_array_literal (elems : list CaseType)
    : M (State World unknown) unit :=
  types <- eval (array_literal elems) ;; unuse types.

End DemoFacts.

(** ** The controller with callbacks that call the controller

    A callback is a closure with [pluginController] in scope, and may call
    its methods.  Here a callback is a computation on the whole program
    state.  Plugin objects are then kept apart from the state, as objects
    are: the map holds references to them, and [objects] reads a
    reference.  (The plugin objects are constants and never assigned to.) *)

Module Reentrant.

Section Model.

Context {World unknown : Type}.

(** A reference to a plugin object. *)
Definition PluginRef : Type := nat.

(** [class PluginController], its map from keys to plugin objects. *)
Record PluginController : Type := {
  pluginMap : gmap Types PluginRef;
}.

(** [new PluginController()]. *)
Definition new_PluginController : PluginController :=
  {| pluginMap := ∅ |}.

(** The program state: the controller and the world around it. *)
Record State : Type := {
  this : PluginController;
  world : World;
}.

(** [interface CasePlugin]. *)
Record CasePlugin : Type := {
  condition : Types -> M State bool;
  action : unknown -> M State unit;
  targetTypes : Types;
}.

Definition set_pluginMap (f : gmap Types PluginRef -> gmap Types PluginRef)
    (st : State) : State :=
  {| this := {| pluginMap := f (pluginMap (this st)) |}; world := world st |}.

(** The plugin objects, by reference. *)
Variable objects : PluginRef -> CasePlugin.

(** [use(plugin) { this.pluginMap.set(plugin.targetTypes, plugin); }] *)
Definition use (plugin : PluginRef) : M State unit :=
  modify (set_pluginMap (fun m => <[targetTypes (objects plugin) := plugin]> m)).

(** [installPlugins(plugins) { plugins.forEach((p) => this.use(p)); }] *)
Definition installPlugins (plugins : list PluginRef) : M State unit :=
  forEach (fun p => use p) plugins.

(** [run(types, params?)] *)
Definition run (types : Types) (params : unknown) : M State unit :=
  st <- get ;;
  match pluginMap (this st) !! types with
  | Some plugin =>
      b <- condition (objects plugin) types ;;
      if b : bool then action (objects plugin) params
      else ret tt
  | None => throw NotRegistered
  end.

(** [unuse(types: CaseType[]) { this.pluginMap.delete(types); }] *)
Definition unuse (types : ref) : M State unit :=
  modify (set_pluginMap (fun m => delete (Arr types) m)).

(** [clearPlugins() { this.pluginMap.clear(); }] *)
Definition clearPlugins : M State unit :=
  modify (set_pluginMap (fun _ => ∅)).

(** A plugin whose callbacks leave the map as they find it. *)
Definition keeps_pluginMap (plugin : CasePlugin) : Prop :=
  (forall types st,
      pluginMap (this (snd (condition plugin types st))) = pluginMap (this st))
  /\ (forall params st,
        pluginMap (this (snd (action plugin params st))) = pluginMap (this st)).

End Model.

Arguments PluginController : clear implicits.
Arguments State : clear implicits.
Arguments CasePlugin : clear implicits.

End Reentrant.

(** A callback on the world, as a callback on the program state that does
    not touch the controller. *)
Definition on_world {World A} (f : M World A) : M (Reentrant.State World) A :=
  fun st =>
    let '(r, w) := f (Reentrant.world st) in
    (r, {| Reentrant.this := Reentrant.this st; Reentrant.world := w |}).

Definition reentrant_plugin {World unknown} (plugin : CasePlugin World unknown)
    : Reentrant.CasePlugin World unknown :=
  {| Reentrant.condition := fun types => on_world (condition plugin types);
     Reentrant.action := fun params => on_world (action plugin params);
     Reentrant.targetTypes := targetTypes plugin |}.

(** The two states of the two controllers hold the same thing: the same
    world, and under every key the same plugin. *)
Definition same_registry {World unknown}
    (objects : Reentrant.PluginRef -> Reentrant.CasePlugin World unknown)
    (st : State World unknown) (rst : Reentrant.State World) : Prop :=
  world st = Reentrant.world rst
  /\ forall K : Types,
       reentrant_plugin <$> (pluginMap (this st) !! K)
       = objects <$> (Reentrant.pluginMap (Reentrant.this rst) !! K).

Module ReentrantDemo.
Import Demo.

(** [{ condition: () => true,
       action: () => pluginController.clearPlugins(),
       targetTypes: "A" }] *)
Definition clearingPlugin : Reentrant.CasePlugin World unknown :=
  {| Reentrant.condition := fun _ => ret true;
     Reentrant.action := fun _ => Reentrant.clearPlugins;
     Reentrant.targetTypes := Tag "A" |}.

(** The plugin objects: the three plugins of the module at the references
    0, 1 and 2, and the clearing plugin at every other. *)
Definition objects (plugin : Reentrant.PluginRef) : Reentrant.CasePlugin World unknown :=
  match plugin with
  | 0 => reentrant_plugin casePluginA
  | 1 => reentrant_plugin casePluginBOrC
  | 2 => reentrant_plugin casePluginN
  | _ => clearingPlugin
  end.

(** The program state once the module is loaded. *)
Definition loaded : Reentrant.State World :=
  {| Reentrant.this := Reentrant.new_PluginController;
     Reentrant.world := module_world |}.

(** After [installPlugins([casePluginA, casePluginBOrC, casePluginN])]. *)
Definition installed : Reentrant.State World :=
  snd (Reentrant.installPlugins objects [0; 1; 2] loaded).

(** After [use] of the clearing plugin on the new controller. *)
Definition clearing_used : Reentrant.State World :=
  snd (Reentrant.use objects 3 loaded).

End ReentrantDemo.

(** ** Theorems about the controller *)

Section ControllerFacts.

Context {World unknown : Type}.
Implicit Types (st : State World unknown) (H : CasePlugin World unknown).
Implicit Types (K : Types) (p : unknown) (w : World).

Lemma set_pluginMap_id st : set_pluginMap (fun m => m) st = st.
Proof. by destruct st as [[m] w cs]. Qed.

Lemma drop_calls_app (cs new : list (Call World unknown)) :
  drop (length cs) (cs ++ new) = new.
Proof. by rewrite drop_app_length. Qed.

(** The three ways [run] can go. *)
Lemma run_None st K p :
  pluginMap (this st) !! K = None -> run K p st = (inl NotRegistered, st).
Proof. intros HK. unfold run, bind, get, throw. by rewrite HK. Qed.

Lemma run_Some st K p H :
  pluginMap (this st) !! K = Some H ->
  run K p st =
    (b <- invoke (CallCondition H K) (condition H K) ;;
     if b : bool then invoke (CallAction H p) (action H p) else ret tt) st.
Proof. intros HK. unfold run at 1, bind at 1, get. by rewrite HK. Qed.

Lemma run_declined st K p H w :
  pluginMap (this st) !! K = Some H ->
  condition H K (world st) = (inr false, w) ->
  run K p st =
    (inr tt,
     {| this := this st; world := w;
        calls := calls st ++ [CallCondition H K] |}).
Proof.
  intros HK Hc. rewrite (run_Some _ _ _ _ HK).
  unfold bind, invoke, ret. by rewrite Hc.
Qed.

Lemma run_matched st K p H w :
  pluginMap (this st) !! K = Some H ->
  condition H K (world st) = (inr true, w) ->
  run K p st =
    (fst (action H p w),
     {| this := this st; world := snd (action H p w);
        calls := calls st ++ [CallCondition H K; CallAction H p] |}).
Proof.
  intros HK Hc. rewrite (run_Some _ _ _ _ HK).
  unfold bind, invoke. rewrite Hc. simpl.
  destruct (action H p w) as [r w']. simpl.
  by rewrite <- app_assoc.
Qed.

Lemma run_condition_threw st K p H e w :
  pluginMap (this st) !! K = Some H ->
  condition H K (world st) = (inl e, w) ->
  run K p st =
    (inl e,
     {| this := this st; world := w;
        calls := calls st ++ [CallCondition H K] |}).
Proof.
  intros HK Hc. rewrite (run_Some _ _ _ _ HK).
  unfold bind, invoke. by rewrite Hc.
Qed.

(** Whatever happens, [run] leaves the map alone and only appends to the
    log, and what it appends holds at most one action. *)
Lemma run_shape st K p :
  exists new,
    pluginMap (this (snd (run K p st))) = pluginMap (this st) /\
    calls (snd (run K p st)) = calls st ++ new /\
    length (invoked_actions new) <= 1.
Proof.
  destruct (pluginMap (this st) !! K) as [H|] eqn:HK.
  - destruct (condition H K (world st)) as [[e | [|]] w] eqn:Hc.
    + rewrite (run_condition_threw _ _ _ _ _ _ HK Hc). simpl. eauto.
    + rewrite (run_matched _ _ _ _ _ HK Hc). simpl. eauto.
    + rewrite (run_declined _ _ _ _ _ HK Hc). simpl. eauto.
  - rewrite (run_None _ _ _ HK). exists []. rewrite app_nil_r. simpl. eauto.
Qed.

Lemma use_eq H st :
  use H st = (inr tt, set_pluginMap (fun m => <[targetTypes H := H]> m) st).
Proof. reflexivity. Qed.

Lemma use_registers H st :
  pluginMap (this (snd (use H st))) !! targetTypes H = Some H.
Proof. rewrite use_eq. simpl. apply lookup_insert_eq. Qed.

Lemma installPlugins_cons H (ps : list (CasePlugin World unknown)) st :
  installPlugins (H :: ps) st = installPlugins ps (snd (use H st)).
Proof. reflexivity. Qed.

Lemma installPlugins_returns (ps : list (CasePlugin World unknown)) st :
  fst (installPlugins ps st) = inr tt /\
  world (snd (installPlugins ps st)) = world st /\
  calls (snd (installPlugins ps st)) = calls st.
Proof.
  revert st. induction ps as [|H ps IH]; intros st; [done|].
  rewrite installPlugins_cons. destruct (IH (snd (use H st))) as (-> & -> & ->).
  done.
Qed.

End ControllerFacts.

Section ControllerClaims.

Context {World unknown : Type}.
Implicit Types (st : State World unknown) (H : CasePlugin World unknown).
Implicit Types (K : Types) (p : unknown) (w : World).
Implicit Types (ps : list (CasePlugin World unknown)).



(** C4. When no handler is registered under the key [K], [run K p] throws
    the not-registered error and changes nothing: no callback is called. *)
Theorem run_unregistered_key_raises st K p :
  pluginMap (this st) !! K = None ->
  run K p st = (inl NotRegistered, st)
  /\ invoked_actions (calls_during (run K p) st) = [].
Proof.
  intros HK. split; [by apply run_None|].
  unfold calls_during. rewrite (run_None _ _ _ HK). simpl.
  by rewrite drop_all.
Qed.


(** With callbacks that act on the world only, as all those of the module
    do, the map after [run] is the map before it.  Callbacks that call the
    controller are the subject of [Reentrant] below. *)
Lemma run_preserves_pluginMap st K p :
  pluginMap (this (snd (run K p st))) = pluginMap (this st).
Proof. by destruct (run_shape st K p) as (new & -> & _). Qed.

(** C7. After [clearPlugins] the map is the empty map of a new controller,
    and [run] on any key, previously registered or not, throws the
    not-registered error without calling anything. *)
Theorem clearPlugins_resets st K p :
  fst (clearPlugins st) = inr tt
  /\ this (snd (clearPlugins st)) = new_PluginController
  /\ run K p (snd (clearPlugins st)) = (inl NotRegistered, snd (clearPlugins st)).
Proof.
  split; [done|]. split; [done|].
  apply run_None. simpl. apply lookup_empty.
Qed.


Lemma installPlugins_foldl ps st :
  installPlugins ps st = (inr tt, foldl (fun s q => snd (use q s)) st ps).
Proof.
  revert st. induction ps as [|q ps IH]; intros st; [done|].
  rewrite installPlugins_cons. by rewrite IH.
Qed.

Lemma installPlugins_lookup ps st K :
  pluginMap (this (snd (installPlugins ps st))) !! K =
    match last (filter (fun q => targetTypes q = K) ps) with
    | Some q => Some q
    | None => pluginMap (this st) !! K
    end.
Proof.
  revert st. induction ps as [|q ps IH]; intros st; [done|].
  rewrite installPlugins_cons, IH, filter_cons. simpl.
  destruct (decide (targetTypes q = K)) as [<- | Hne].
  - rewrite last_cons.
    destruct (last (filter _ ps)); [done|]. apply lookup_insert_eq.
  - destruct (last (filter _ ps)); [done|]. by apply lookup_insert_ne.
Qed.

(** C5. [use] overwrites by key: when [H1] and [H2] have the same
    [targetTypes], [use H1] followed by [use H2] leaves the very state that
    [use H2] alone leaves, with [H2] under the key.  [installPlugins] is
    [use] on each plugin from first to last, so that the entry of a key
    after it is the last plugin of the sequence with that key (and the old
    entry when the sequence has none). *)
Theorem use_overwrites_and_installPlugins_in_order st H1 H2 ps K :
  (targetTypes H1 = targetTypes H2 ->
     (use H1 ;;; use H2) st = use H2 st
     /\ pluginMap (this (snd ((use H1 ;;; use H2) st))) !! targetTypes H1 = Some H2)
  /\ installPlugins ps st = (inr tt, foldl (fun s q => snd (use q s)) st ps)
  /\ pluginMap (this (snd (installPlugins ps st))) !! K =
       match last (filter (fun q => targetTypes q = K) ps) with
       | Some q => Some q
       | None => pluginMap (this st) !! K
       end.
Proof.
  split; [|split; [apply installPlugins_foldl | apply installPlugins_lookup]].
  intros Heq.
  assert (Hst : (use H1 ;;; use H2) st = use H2 st).
  { unfold bind. rewrite !use_eq. unfold set_pluginMap. simpl.
    by rewrite Heq, insert_insert_eq. }
  split; [exact Hst|].
  rewrite Hst, Heq. simpl. apply lookup_insert_eq.
Qed.

End ControllerClaims.

(** ** Theorems about the module's plugins *)

Module DemoClaims.
Import Demo DemoFacts.

Implicit Types (st : State World unknown).

(** What [installPlugins] of the three plugins leaves in the map. *)
Lemma installed_keys :
  pluginMap (this installed) !! Tag "A" = Some casePluginA
  /\ pluginMap (this installed) !! Arr BOrC_targetTypes = Some casePluginBOrC
  /\ pluginMap (this installed) !! Tag "N" = Some casePluginN
  /\ pluginMap (this installed) !! Tag "B" = None
  /\ pluginMap (this installed) !! Tag "C" = None
  /\ pluginMap (this installed) !! Tag "" = None.
Proof. repeat split; reflexivity. Qed.

(** The sentinel check of the three plain dispatch functions
    ([Object.prototype] has no property of the empty name). *)
Lemma handleType_empty_tag (w : World) :
  handleType "" w = (inl InvalidInput, w)
  /\ handleTypeBySwitch "" w = (inl InvalidInput, w)
  /\ (forall Object_prototype,
        Object_prototype "" = None ->
        handleType2 Object_prototype "" w = (inl InvalidInput, w)).
Proof.
  split; [reflexivity|]. split; [reflexivity|].
  intros Object_prototype Hnone. unfold handleType2, typeCaseMap_get.
  change (typeCaseMap !! "") with (@None (unknown -> M World unit)).
  by rewrite Hnone.
Qed.

(** [Demo] itself stops at [handleClick("B")]. *)
Lemma Demo_throws :
  fst (Demo loaded) = inl NotRegistered
  /\ dialogs (world (snd (Demo loaded))) = ["I am A case"]
  /\ invoked_actions (calls (snd (Demo loaded))) = [(casePluginA, undefined)].
Proof. repeat split; reflexivity. Qed.

(** With the array that is the key, the compound plugin is found and its
    action runs; after [unuse] of that array it is gone. *)
Lemma run_with_targetTypes_invokes :
  fst (run_with_targetTypes loaded) = inr tt
  /\ invoked_actions (calls (snd (run_with_targetTypes loaded)))
       = [(casePluginBOrC, undefined)]
  /\ dialogs (world (snd (run_with_targetTypes loaded)))
       = ["I am B Or C case"].
Proof. repeat split; reflexivity. Qed.

Lemma run_unuse_run_with_targetTypes_raises :
  fst (run_unuse_run_with_targetTypes loaded) = inl NotRegistered
  /\ invoked_actions (calls (snd (run_unuse_run_with_targetTypes loaded)))
       = [(casePluginBOrC, undefined)].
Proof. repeat split; reflexivity. Qed.

(** [unuse] with another array of the same elements removes nothing. *)
Lemma unuse_array_literal_removes_nothing :
  fst (unuse_array_literal_then_run loaded) = inr tt
  /\ invoked_actions (calls (snd (unuse_array_literal_then_run loaded)))
       = [(casePluginBOrC, undefined)].
Proof. repeat split; reflexivity. Qed.

(** A plugin registered under [""] is run like any other. *)
Lemma run_empty_tag_registered :
  fst (run (Tag "") undefined (snd (use casePluginEmpty loaded))) = inr tt
  /\ invoked_actions
       (calls (snd (run (Tag "") undefined (snd (use casePluginEmpty loaded)))))
       = [(casePluginEmpty, undefined)].
Proof. repeat split; reflexivity. Qed.

(** C2, as stated, fails: on the new controller [run("")] throws the
    not-registered error, which is not the invalid-input error. *)
Lemma run_empty_tag_raises_NotRegistered :
  fst (run (Tag "") undefined loaded) = inl NotRegistered
  /\ fst (run (Tag "") undefined loaded) <> inl InvalidInput.
Proof. split; [reflexivity | discriminate]. Qed.

(** C2, amended. [run] has no check of its own for the empty tag: when no
    handler is registered under [""], [run("")] throws the not-registered
    error, the outcome of the failed lookup and not the invalid-input
    error, and calls nothing. *)
Theorem run_empty_tag_unregistered st (p : unknown) :
  pluginMap (this st) !! Tag "" = None ->
  run (Tag "") p st = (inl NotRegistered, st)
  /\ NotRegistered <> InvalidInput
  /\ invoked_actions (calls_during (run (Tag "") p) st) = [].
Proof.
  intros HK. split; [by apply run_None|]. split; [discriminate|].
  unfold calls_during. rewrite (run_None _ _ _ HK). simpl. by rewrite drop_all.
Qed.

(** C3. After [use(casePluginBOrC)], [run] with an array literal
    [["B", "C"]] throws the not-registered error and invokes nothing: the
    literal is a new array, not the one the plugin is registered under. *)
Theorem run_with_array_literal_not_found :
  fst (run_with_array_literal loaded) = inl NotRegistered
  /\ calls (snd (run_with_array_literal loaded)) = []
  /\ dialogs (world (snd (run_with_array_literal loaded))) = [].
Proof. repeat split; reflexivity. Qed.

(** C10. Lookup is by the exact key: when the tag [T] is not itself a key,
    [run(T)] throws the not-registered error and changes nothing, even
    when [T] is an element of an array under which a handler is
    registered. *)
Theorem run_looks_up_the_exact_key st (T : CaseType) (r : ref)
    (H : CasePlugin World unknown) (elems : list CaseType) (p : unknown) :
  pluginMap (this st) !! Tag T = None ->
  pluginMap (this st) !! Arr r = Some H ->
  heap (world st) !! r = Some elems ->
  T ∈ elems ->
  run (Tag T) p st = (inl NotRegistered, st).
Proof. intros HT _ _ _. by apply run_None. Qed.

(** *** Instances on the module's plugins *)


Lemma run_empty_tag_unregistered_witness :
  run (Tag "") undefined installed = (inl NotRegistered, installed).
Proof.
  apply (run_empty_tag_unregistered installed undefined). reflexivity.
Defined.

Lemma run_unregistered_key_raises_witness :
  run (Tag "B") undefined installed = (inl NotRegistered, installed)
  /\ invoked_actions (calls_during (run (Tag "B") undefined) installed) = [].
Proof.
  apply (run_unregistered_key_raises installed (Tag "B") undefined). reflexivity.
Defined.

Lemma use_overwrites_and_installPlugins_in_order_witness :
  (use casePluginN ;;; use casePluginA_under_N) loaded
    = use casePluginA_under_N loaded
  /\ pluginMap (this (snd ((use casePluginN ;;; use casePluginA_under_N) loaded)))
       !! Tag "N" = Some casePluginA_under_N
  /\ pluginMap
       (this (snd (installPlugins [casePluginN; casePluginA; casePluginA_under_N]
                     loaded)))
       !! Tag "N" = Some casePluginA_under_N.
Proof.
  destruct (use_overwrites_and_installPlugins_in_order
              loaded casePluginN casePluginA_under_N
              [casePluginN; casePluginA; casePluginA_under_N] (Tag "N"))
    as (Huse & _ & Hlast).
  destruct (Huse eq_refl) as (Hst & Hkey).
  split; [exact Hst|]. split; [exact Hkey | exact Hlast].
Defined.



Lemma run_looks_up_the_exact_key_witness :
  run (Tag "B") undefined installed = (inl NotRegistered, installed).
Proof.
  apply (run_looks_up_the_exact_key
           installed "B" BOrC_targetTypes casePluginBOrC ["B"; "C"] undefined);
    [reflexivity | reflexivity | reflexivity | apply list_elem_of_here].
Defined.

End DemoClaims.

(** ** Further properties of the controller *)

Section ControllerComposition.

Context {World unknown : Type}.
Implicit Types (st : State World unknown) (H q : CasePlugin World unknown).
Implicit Types (K : Types) (p : unknown).
Implicit Types (ps : list (CasePlugin World unknown)).

Lemma State_eq st1 st2 :
  pluginMap (this st1) = pluginMap (this st2) ->
  world st1 = world st2 ->
  calls st1 = calls st2 ->
  st1 = st2.
Proof.
  destruct st1 as [[m1] w1 c1], st2 as [[m2] w2 c2]. simpl.
  by intros -> -> ->.
Qed.

Lemma installPlugins_eq ps st :
  installPlugins ps st = (inr tt, snd (installPlugins ps st)).
Proof. by rewrite installPlugins_foldl. Qed.

(** Two installations that leave the same entry under every key leave the
    same state. *)
Lemma installPlugins_ext ps1 ps2 st1 st2 :
  world st1 = world st2 ->
  calls st1 = calls st2 ->
  (forall K, pluginMap (this (snd (installPlugins ps1 st1))) !! K
             = pluginMap (this (snd (installPlugins ps2 st2))) !! K) ->
  installPlugins ps1 st1 = installPlugins ps2 st2.
Proof.
  intros Hw Hc Hm.
  rewrite (installPlugins_eq ps1), (installPlugins_eq ps2). f_equal.
  destruct (installPlugins_returns ps1 st1) as (_ & Hw1 & Hc1).
  destruct (installPlugins_returns ps2 st2) as (_ & Hw2 & Hc2).
  apply State_eq; [by apply map_eq | congruence | congruence].
Qed.

(** X1. Installing a concatenation is installing the first part, then the
    second. *)
Theorem installPlugins_app ps1 ps2 st :
  installPlugins (ps1 ++ ps2) st = (installPlugins ps1 ;;; installPlugins ps2) st.
Proof.
  revert st. induction ps1 as [|q ps1 IH]; intros st; [done|].
  change ((q :: ps1) ++ ps2) with (q :: (ps1 ++ ps2)).
  rewrite installPlugins_cons, IH. unfold bind.
  by rewrite installPlugins_cons.
Qed.

(** X2. Installing the same plugins a second time changes nothing. *)
Theorem installPlugins_idempotent ps st :
  (installPlugins ps ;;; installPlugins ps) st = installPlugins ps st.
Proof.
  unfold bind. rewrite (installPlugins_eq ps st) at 1.
  destruct (installPlugins_returns ps st) as (_ & Hw & Hc).
  apply installPlugins_ext; [done | done |].
  intros K. rewrite (installPlugins_lookup ps (snd _)).
  rewrite (installPlugins_lookup ps st).
  by destruct (last (filter _ ps)).
Qed.

Lemma installPlugins_lookup_other ps st K :
  K ∉ targetTypes <$> ps ->
  pluginMap (this (snd (installPlugins ps st))) !! K = pluginMap (this st) !! K.
Proof.
  revert st. induction ps as [|q ps IH]; intros st HK; [done|].
  rewrite fmap_cons, not_elem_of_cons in HK. destruct HK as [Hq HK].
  rewrite installPlugins_cons, (IH _ HK), use_eq. simpl.
  by apply lookup_insert_ne.
Qed.

Lemma installPlugins_lookup_NoDup ps st q :
  NoDup (targetTypes <$> ps) ->
  q ∈ ps ->
  pluginMap (this (snd (installPlugins ps st))) !! targetTypes q = Some q.
Proof.
  revert st. induction ps as [|x ps IH]; intros st Hnd Hq.
  - by apply not_elem_of_nil in Hq.
  - rewrite fmap_cons, NoDup_cons in Hnd. destruct Hnd as [Hx Hnd].
    rewrite installPlugins_cons.
    apply elem_of_cons in Hq as [-> | Hin].
    + rewrite (installPlugins_lookup_other _ _ _ Hx).
      apply use_registers.
    + by apply IH.
Qed.

(** X3. When no two plugins of the sequence have the same key, the order in
    which they are installed does not matter. *)
Theorem installPlugins_Permutation ps1 ps2 st :
  NoDup (targetTypes <$> ps1) ->
  ps1 ≡ₚ ps2 ->
  installPlugins ps1 st = installPlugins ps2 st.
Proof.
  intros Hnd Hperm.
  assert (Hnd2 : NoDup (targetTypes <$> ps2)) by (by rewrite <- Hperm).
  apply installPlugins_ext; [done | done |].
  intros K. destruct (decide (K ∈ targetTypes <$> ps1)) as [Hin | Hnin].
  - apply list_elem_of_fmap in Hin as (q & -> & Hq).
    rewrite (installPlugins_lookup_NoDup ps1 st q Hnd Hq).
    rewrite (installPlugins_lookup_NoDup ps2 st q Hnd2); [done|].
    by rewrite <- Hperm.
  - rewrite (installPlugins_lookup_other ps1 st K Hnin).
    rewrite (installPlugins_lookup_other ps2 st K); [done|].
    by rewrite <- Hperm.
Qed.

(** X4. [use] of a plugin whose key is an array that was not a key before,
    followed by [unuse] of that array, restores the state. *)
Theorem use_unuse_round_trip H (r : ref) st :
  targetTypes H = Arr r ->
  pluginMap (this st) !! Arr r = None ->
  (use H ;;; unuse r) st = (inr tt, st).
Proof.
  intros HK Hnone. unfold bind. rewrite use_eq. unfold unuse, modify. f_equal.
  apply State_eq; [|done|done]. simpl.
  rewrite HK, delete_insert_eq. by apply delete_id.
Qed.

(** X5. No sequence of [unuse] calls removes or changes a plugin registered
    under a single tag, and none throws: [unuse] reaches array keys only. *)
Theorem unuse_keeps_tags (rs : list ref) st (type : CaseType) :
  fst (forEach unuse rs st) = inr tt
  /\ pluginMap (this (snd (forEach unuse rs st))) !! Tag type
       = pluginMap (this st) !! Tag type.
Proof.
  revert st. induction rs as [|r rs IH]; intros st; [done|].
  change (forEach unuse (r :: rs) st) with (forEach unuse rs (snd (unuse r st))).
  destruct (IH (snd (unuse r st))) as [-> ->]. split; [done|].
  simpl. by apply lookup_delete_ne.
Qed.

(** X10. [installPlugins] checks nothing and calls nothing: for every
    sequence of plugins it returns normally, calls no condition and no
    action, and leaves the world untouched. *)
Theorem installPlugins_is_silent ps st :
  fst (installPlugins ps st) = inr tt
  /\ world (snd (installPlugins ps st)) = world st
  /\ calls_during (installPlugins ps) st = [].
Proof.
  destruct (installPlugins_returns ps st) as (Hr & Hw & Hc).
  split; [done|]. split; [done|].
  unfold calls_during. rewrite Hc. by rewrite drop_all.
Qed.

(** X19. [run] catches nothing: when the condition of the plugin it found
    throws, [run] throws that same exception, the world is as the condition
    left it, and the action is not invoked. *)
Theorem run_propagates_condition_exception st H K p (e : exn) (w : World) :
  pluginMap (this st) !! K = Some H ->
  condition H K (world st) = (inl e, w) ->
  fst (run K p st) = inl e
  /\ world (snd (run K p st)) = w
  /\ invoked_actions (calls_during (run K p) st) = [].
Proof.
  intros HK Hc. unfold calls_during.
  rewrite (run_condition_threw st K p H e w HK Hc). simpl.
  repeat split. by rewrite drop_calls_app.
Qed.

End ControllerComposition.

(** ** Further properties of the module's functions and plugins *)

Module DemoExtras.
Import Demo DemoFacts.

Implicit Types (st : State World unknown) (w : World) (type : CaseType).

Lemma bind_inr {S A B} (m : M S A) (k : A -> M S B) s a s' :
  m s = (inr a, s') -> bind m k s = k a s'.
Proof. intros Hm. unfold bind. by rewrite Hm. Qed.

Lemma bind_inl {S A B} (m : M S A) (k : A -> M S B) s e s' :
  m s = (inl e, s') -> bind m k s = (inl e, s').
Proof. intros Hm. unfold bind. by rewrite Hm. Qed.

(** X6. [handleType] case by case: the empty tag throws the invalid-input
    error before anything is shown; [A], [B] and [N] show the one dialog
    "I am <tag> case" and return; any other string returns with nothing
    done. *)
Theorem handleType_cases type w :
  (type = "" -> handleType type w = (inl InvalidInput, w))
  /\ (type ∈ ["A"; "B"; "N"] ->
        handleType type w =
          (inr tt,
           {| heap := heap w;
              dialogs := dialogs w ++ [String.append "I am " (String.append type " case")];
              warnings := warnings w |}))
  /\ (type ∉ [""; "A"; "B"; "N"] -> handleType type w = (inr tt, w)).
Proof.
  split; [by intros ->|]. split.
  - intros Hin. repeat (apply elem_of_cons in Hin as [-> | Hin]; [reflexivity|]).
    by apply not_elem_of_nil in Hin.
  - intros Hnin. rewrite !not_elem_of_cons in Hnin.
    destruct Hnin as (H0 & HA & HB & HN & _).
    unfold handleType.
    apply String.eqb_neq in H0, HA, HB, HN. by rewrite H0, HA, HB, HN.
Qed.

(** X7. The [switch] version does what the [if] version does, with the same
    outcome, the same dialogs and the same heap, and differs in one thing:
    on a string that is none of [""], [A], [B], [N] it writes a warning,
    where [handleType] writes none. *)
Theorem handleTypeBySwitch_agrees_with_handleType type w :
  fst (handleTypeBySwitch type w) = fst (handleType type w)
  /\ heap (snd (handleTypeBySwitch type w)) = heap (snd (handleType type w))
  /\ dialogs (snd (handleTypeBySwitch type w)) = dialogs (snd (handleType type w))
  /\ warnings (snd (handleType type w)) = warnings w
  /\ warnings (snd (handleTypeBySwitch type w)) =
       warnings w ++
       (if bool_decide (type ∈ [""; "A"; "B"; "N"]) then []
        else ["type is not handled"]).
Proof.
  unfold handleTypeBySwitch, handleType.
  destruct (String.eqb_spec type "") as [-> | H0];
    [by rewrite app_nil_r|].
  destruct (String.eqb_spec type "A") as [-> | HA];
    [by rewrite app_nil_r|].
  destruct (String.eqb_spec type "B") as [-> | HB];
    [by rewrite app_nil_r|].
  destruct (String.eqb_spec type "N") as [-> | HN];
    [by rewrite app_nil_r|].
  rewrite bool_decide_eq_false_2; [done|].
  rewrite !elem_of_cons, elem_of_nil. tauto.
Qed.



(** X9. With [casePluginA] and [casePluginN] registered under their own
    keys, [run] on the tags [A] and [N] returns what [handleType] returns
    and leaves the world [handleType] leaves. *)
Theorem run_agrees_with_handleType st type (p : unknown) :
  pluginMap (this st) !! Tag "A" = Some casePluginA ->
  pluginMap (this st) !! Tag "N" = Some casePluginN ->
  type = "A" \/ type = "N" ->
  fst (run (Tag type) p st) = fst (handleType type (world st))
  /\ world (snd (run (Tag type) p st)) = snd (handleType type (world st)).
Proof.
  intros HA HN [-> | ->].
  - by rewrite (run_matched st (Tag "A") p casePluginA (world st) HA eq_refl).
  - by rewrite (run_matched st (Tag "N") p casePluginN (world st) HN eq_refl).
Qed.

Lemma filter_nonempty {A} (P : A -> Prop) `{forall x, Decision (P x)} (l : list A) :
  negb (Nat.eqb (length (filter P l)) 0) = true <-> exists v, v ∈ l /\ P v.
Proof.
  destruct (filter P l) as [|x l'] eqn:Hf; simpl; split.
  - discriminate.
  - intros (v & Hv & HP). by destruct (filter_nil_not_elem_of P l v Hf HP).
  - intros _. exists x.
    assert (Hx : x ∈ filter P l) by (rewrite Hf; apply list_elem_of_here).
    apply list_elem_of_filter in Hx. tauto.
  - done.
Qed.

Lemma filter_all {A} (P : A -> Prop) `{forall x, Decision (P x)} (l : list A) :
  (forall v, v ∈ l -> P v) -> filter P l = l.
Proof.
  induction l as [|x l IH]; intros Hall; [done|].
  rewrite filter_cons_True by (apply Hall, list_elem_of_here).
  rewrite IH; [done|]. intros v Hv. apply Hall. by apply list_elem_of_further.
Qed.

Lemma includes_true (elems : list CaseType) (v : CaseType) :
  includes elems v = true <-> v ∈ elems.
Proof. unfold includes. apply bool_decide_eq_true. Qed.

Lemma casePluginBOrC_condition_eq w (r : ref) (elems target : list CaseType) :
  heap w !! r = Some elems ->
  heap w !! BOrC_targetTypes = Some target ->
  condition casePluginBOrC (Arr r) w =
    (inr (negb (Nat.eqb
                  (length (filter (fun v => includes target v = true) elems)) 0)),
     w).
Proof.
  intros Hr Ht. simpl. unfold bind, elements. by rewrite Hr, Ht.
Qed.

(** X11. The condition of [casePluginBOrC] on an array: it returns, leaves
    the world as it is, and answers true exactly when some element of the
    array is an element of the array [casePluginBOrC.targetTypes]. *)
Theorem casePluginBOrC_condition_intersects w (r : ref) (elems target : list CaseType) :
  heap w !! r = Some elems ->
  heap w !! BOrC_targetTypes = Some target ->
  exists b : bool,
    condition casePluginBOrC (Arr r) w = (inr b, w)
    /\ (b = true <-> exists v, v ∈ elems /\ v ∈ target).
Proof.
  intros Hr Ht. eexists. split; [by apply casePluginBOrC_condition_eq|].
  rewrite filter_nonempty. split; intros (v & Hv & Hin); exists v;
    (split; [done|]); by apply includes_true.
Qed.

(** X12. The callbacks of [casePluginBOrC] registered under a single tag:
    [run] on that tag finds the plugin, and the condition throws a
    [TypeError] ([filter] is not a method of a string); the action is never
    invoked. *)
Theorem run_array_condition_on_a_tag st (s : CaseType) (H : CasePlugin World unknown)
    (p : unknown) :
  pluginMap (this st) !! Tag s = Some H ->
  condition H = condition casePluginBOrC ->
  run (Tag s) p st =
    (inl (TypeError "types.filter is not a function"),
     {| this := this st; world := world st;
        calls := calls st ++ [CallCondition H (Tag s)] |})
  /\ invoked_actions (calls_during (run (Tag s) p) st) = [].
Proof.
  intros HK Hc.
  assert (Hrun : run (Tag s) p st =
    (inl (TypeError "types.filter is not a function"),
     {| this := this st; world := world st;
        calls := calls st ++ [CallCondition H (Tag s)] |})).
  { apply (run_condition_threw st (Tag s) p H _ (world st) HK). by rewrite Hc. }
  split; [exact Hrun|].
  unfold calls_during. rewrite Hrun. simpl. by rewrite drop_calls_app.
Qed.

(** X13. [casePluginBOrC] under its own key: [run] with the array
    [casePluginBOrC.targetTypes] compares that array with itself, so it
    returns normally and invokes the action unless the array is empty. *)
Theorem run_BOrC_own_key st (p : unknown) (target : list CaseType) :
  pluginMap (this st) !! Arr BOrC_targetTypes = Some casePluginBOrC ->
  heap (world st) !! BOrC_targetTypes = Some target ->
  fst (run (Arr BOrC_targetTypes) p st) = inr tt
  /\ invoked_actions (calls_during (run (Arr BOrC_targetTypes) p) st) =
       match target with
       | [] => []
       | _ :: _ => [(casePluginBOrC, p)]
       end.
Proof.
  intros HK Ht.
  pose proof (casePluginBOrC_condition_eq (world st) _ target target Ht Ht) as Hc.
  rewrite filter_all in Hc by (intros v Hv; by apply includes_true).
  unfold calls_during. destruct target as [|x target]; simpl in Hc.
  - rewrite (run_declined st _ p casePluginBOrC (world st) HK Hc). simpl.
    by rewrite drop_calls_app.
  - rewrite (run_matched st _ p casePluginBOrC (world st) HK Hc). simpl.
    by rewrite drop_calls_app.
Qed.

Lemma keys_allocated_spec st :
  keys_allocated st = true <->
  forall (r : ref) (H : CasePlugin World unknown),
    pluginMap (this st) !! Arr r = Some H -> r < length (heap (world st)).
Proof.
  unfold keys_allocated. rewrite forallb_forall. split.
  - intros Hall r H Hr.
    apply elem_of_map_to_list, list_elem_of_In in Hr.
    apply Hall in Hr. simpl in Hr. by apply Nat.ltb_lt.
  - intros Hall [[s | r] H] Hin; simpl; [done|].
    apply list_elem_of_In, elem_of_map_to_list in Hin.
    apply Nat.ltb_lt. by apply (Hall r H).
Qed.

Lemma keys_allocated_fresh st :
  keys_allocated st = true ->
  pluginMap (this st) !! Arr (length (heap (world st))) = None.
Proof.
  intros Hk. destruct (pluginMap (this st) !! Arr _) as [H|] eqn:Hl; [|done].
  apply (proj1 (keys_allocated_spec st) Hk) in Hl. lia.
Qed.

(** X14. The invariant that every array key is an allocated array is kept
    by each operation of the controller and by the evaluation of an array
    literal: by [use] of a plugin whose key is a tag or an allocated array,
    by [unuse], by [clearPlugins] and by [array_literal]. *)
Theorem keys_allocated_preserved st :
  keys_allocated st = true ->
  (forall H : CasePlugin World unknown,
      match targetTypes H with
      | Arr r => r < length (heap (world st))
      | Tag _ => True
      end ->
      keys_allocated (snd (use H st)) = true)
  /\ (forall r : ref, keys_allocated (snd (unuse r st)) = true)
  /\ keys_allocated (snd (clearPlugins st)) = true
  /\ (forall elems, keys_allocated (snd (eval (array_literal elems) st)) = true).
Proof.
  intros Hk. pose proof (proj1 (keys_allocated_spec st) Hk) as Hall.
  split; [|split; [|split]].
  - intros H HH. apply keys_allocated_spec. intros r H' Hr. simpl in Hr |- *.
    destruct (decide (targetTypes H = Arr r)) as [Heq | Hne].
    + by rewrite Heq in HH.
    + rewrite lookup_insert_ne in Hr by done. by apply (Hall r H').
  - intros r. apply keys_allocated_spec. intros r' H' Hr. simpl in Hr |- *.
    apply lookup_delete_Some in Hr as [_ Hr]. by apply (Hall r' H').
  - apply keys_allocated_spec. intros r H' Hr. simpl in Hr.
    by rewrite lookup_empty in Hr.
  - intros elems. apply keys_allocated_spec. intros r H' Hr. simpl in Hr |- *.
    rewrite length_app. apply (Hall r H') in Hr. lia.
Qed.

(** X15. Array keys are compared by reference: when every array key of the
    map is an allocated array, [run] called with an array literal, whatever
    its elements, throws the not-registered error and calls nothing; all it
    leaves behind is the new array. *)
Theorem run_array_literal_never_found st (elems : list CaseType) (p : unknown) :
  keys_allocated st = true ->
  run_array_literal elems p st =
    (inl NotRegistered,
     {| this := this st;
        world := snd (array_literal elems (world st));
        calls := calls st |}).
Proof.
  intros Hk. unfold run_array_literal.
  rewrite (bind_inr _ _ st (length (heap (world st)))
             {| this := this st;
                world := snd (array_literal elems (world st));
                calls := calls st |}) by done.
  apply run_None. simpl. by apply keys_allocated_fresh.
Qed.

(** X16. For the same reason [unuse] called with an array literal removes
    nothing: the controller and the call log are as before. *)
Theorem unuse_array_literal_never_removes st (elems : list CaseType) :
  keys_allocated st = true ->
  unuse_array_literal elems st =
    (inr tt,
     {| this := this st;
        world := snd (array_literal elems (world st));
        calls := calls st |}).
Proof.
  intros Hk. unfold unuse_array_literal.
  rewrite (bind_inr _ _ st (length (heap (world st)))
             {| this := this st;
                world := snd (array_literal elems (world st));
                calls := calls st |}) by done.
  unfold unuse, modify. f_equal. apply State_eq; [|done|done]. simpl.
  apply delete_id. by apply keys_allocated_fresh.
Qed.

Lemma installed_lookup st (K : Types) :
  pluginMap (this (snd (installPlugins [casePluginA; casePluginBOrC; casePluginN] st)))
    !! K =
    if decide (K = Tag "N") then Some casePluginN
    else if decide (K = Arr BOrC_targetTypes) then Some casePluginBOrC
    else if decide (K = Tag "A") then Some casePluginA
    else pluginMap (this st) !! K.
Proof.
  simpl. rewrite !lookup_insert.
  repeat (case_decide; simplify_eq; try done).
Qed.

(** X17. [Demo] never gets to its end: from any state in which no plugin is
    registered under the tag [B], it throws the not-registered error at
    [handleClick("B")], after the one dialog of the [A] case; the later
    calls and [clearPlugins] are not reached, so the three plugins stay
    installed. *)
Theorem Demo_stops_at_B st :
  pluginMap (this st) !! Tag "B" = None ->
  Demo st =
    (inl NotRegistered,
     {| this := this (snd (installPlugins [casePluginA; casePluginBOrC; casePluginN] st));
        world := snd (confirm "I am A case" (world st));
        calls := calls st ++ [CallCondition casePluginA (Tag "A");
                              CallAction casePluginA undefined] |}).
Proof.
  intros HB. unfold Demo, handleClick.
  set (ps := [casePluginA; casePluginBOrC; casePluginN]).
  rewrite (bind_inr _ _ st tt (snd (installPlugins ps st)))
    by apply installPlugins_eq.
  set (st1 := snd (installPlugins ps st)).
  assert (HA1 : pluginMap (this st1) !! Tag "A" = Some casePluginA)
    by (unfold st1, ps; by rewrite installed_lookup).
  assert (HB1 : pluginMap (this st1) !! Tag "B" = None)
    by (unfold st1, ps; by rewrite installed_lookup).
  rewrite (bind_inr _ _ st1 tt _
             (run_matched st1 (Tag "A") undefined casePluginA (world st1) HA1 eq_refl)).
  erewrite bind_inl; [|by apply run_None].
  done.
Qed.




(** *** Instances on the module's plugins *)

Lemma installPlugins_Permutation_witness :
  installPlugins [casePluginA; casePluginBOrC; casePluginN] loaded
  = installPlugins [casePluginN; casePluginA; casePluginBOrC] loaded.
Proof.
  apply (installPlugins_Permutation
           [casePluginA; casePluginBOrC; casePluginN]
           [casePluginN; casePluginA; casePluginBOrC] loaded).
  - apply (bool_decide_unpack _). vm_compute. exact I.
  - symmetry. apply (Permutation_cons_append [casePluginA; casePluginBOrC] casePluginN).
Defined.

Lemma use_unuse_round_trip_witness :
  (use casePluginBOrC ;;; unuse BOrC_targetTypes) loaded = (inr tt, loaded).
Proof.
  apply (use_unuse_round_trip casePluginBOrC BOrC_targetTypes loaded); reflexivity.
Defined.

Lemma run_propagates_condition_exception_witness :
  fst (run (Tag "B") undefined (snd (use casePluginBOrC_under_B loaded)))
  = inl (TypeError "types.filter is not a function").
Proof.
  apply (run_propagates_condition_exception
           (snd (use casePluginBOrC_under_B loaded)) casePluginBOrC_under_B
           (Tag "B") undefined (TypeError "types.filter is not a function")
           module_world); reflexivity.
Defined.

Lemma handleType_cases_witness :
  handleType "" module_world = (inl InvalidInput, module_world)
  /\ dialogs (snd (handleType "B" module_world)) = ["I am B case"]
  /\ handleType "C" module_world = (inr tt, module_world).
Proof.
  split; [|split].
  - apply (handleType_cases "" module_world). reflexivity.
  - rewrite (proj1 (proj2 (handleType_cases "B" module_world)));
      [reflexivity|].
    apply list_elem_of_further, list_elem_of_here.
  - apply (handleType_cases "C" module_world).
    apply (bool_decide_unpack _). vm_compute. exact I.
Defined.


Lemma run_agrees_with_handleType_witness :
  fst (run (Tag "N") undefined installed) = fst (handleType "N" (world installed))
  /\ world (snd (run (Tag "N") undefined installed))
       = snd (handleType "N" (world installed)).
Proof.
  apply (run_agrees_with_handleType installed "N" undefined);
    [reflexivity | reflexivity | right; reflexivity].
Defined.

Lemma casePluginBOrC_condition_intersects_witness :
  exists b : bool,
    condition casePluginBOrC (Arr 1) (snd (array_literal ["N"; "B"] module_world))
      = (inr b, snd (array_literal ["N"; "B"] module_world))
    /\ (b = true <-> exists v, v ∈ ["N"; "B"] /\ v ∈ ["B"; "C"]).
Proof.
  apply (casePluginBOrC_condition_intersects
           (snd (array_literal ["N"; "B"] module_world)) 1 ["N"; "B"] ["B"; "C"]);
    reflexivity.
Defined.

Lemma run_array_condition_on_a_tag_witness :
  invoked_actions
    (calls_during (run (Tag "B") undefined)
       (snd (use casePluginBOrC_under_B loaded))) = [].
Proof.
  apply (run_array_condition_on_a_tag
           (snd (use casePluginBOrC_under_B loaded)) "B" casePluginBOrC_under_B
           undefined); reflexivity.
Defined.

Lemma run_BOrC_own_key_witness :
  fst (run (Arr BOrC_targetTypes) undefined installed) = inr tt
  /\ invoked_actions (calls_during (run (Arr BOrC_targetTypes) undefined) installed)
       = [(casePluginBOrC, undefined)].
Proof.
  apply (run_BOrC_own_key installed undefined ["B"; "C"]); reflexivity.
Defined.

Lemma keys_allocated_preserved_witness :
  keys_allocated (snd (use casePluginBOrC installed)) = true
  /\ keys_allocated (snd (eval (array_literal ["B"; "C"]) installed)) = true.
Proof.
  destruct (keys_allocated_preserved installed eq_refl) as (Huse & _ & _ & Hlit).
  split; [|apply Hlit].
  apply Huse. change (0 < 1). lia.
Defined.

Lemma run_array_literal_never_found_witness :
  run_array_literal ["B"; "C"] undefined installed =
    (inl NotRegistered,
     {| this := this installed;
        world := snd (array_literal ["B"; "C"] (world installed));
        calls := calls installed |}).
Proof.
  apply (run_array_literal_never_found installed ["B"; "C"] undefined). reflexivity.
Defined.

Lemma unuse_array_literal_never_removes_witness :
  unuse_array_literal ["B"; "C"] installed =
    (inr tt,
     {| this := this installed;
        world := snd (array_literal ["B"; "C"] (world installed));
        calls := calls installed |}).
Proof.
  apply (unuse_array_literal_never_removes installed ["B"; "C"]). reflexivity.
Defined.

Lemma Demo_stops_at_B_witness :
  fst (Demo loaded) = inl NotRegistered
  /\ this (snd (Demo loaded)) = this installed.
Proof.
  rewrite (Demo_stops_at_B loaded eq_refl). split; reflexivity.
Defined.


End DemoExtras.

(** ** The controller with callbacks that call the controller: theorems *)

Section ReentrantFacts.

Context {World unknown : Type}.
Variable objects : Reentrant.PluginRef -> Reentrant.CasePlugin World unknown.
Implicit Types (st : Reentrant.State World) (K : Types) (p : unknown).

Lemma reentrant_run_None st K p :
  Reentrant.pluginMap (Reentrant.this st) !! K = None ->
  Reentrant.run objects K p st = (inl NotRegistered, st).
Proof. intros HK. unfold Reentrant.run, bind, get, throw. by rewrite HK. Qed.

Lemma reentrant_run_Some st K p (plugin : Reentrant.PluginRef) :
  Reentrant.pluginMap (Reentrant.this st) !! K = Some plugin ->
  Reentrant.run objects K p st =
    (b <- Reentrant.condition (objects plugin) K ;;
     if b : bool then Reentrant.action (objects plugin) p else ret tt) st.
Proof. intros HK. unfold Reentrant.run at 1, bind at 1, get. by rewrite HK. Qed.

(** A plugin whose callbacks act on the world only keeps the map. *)
Lemma reentrant_plugin_keeps_pluginMap (plugin : CasePlugin World unknown) :
  Reentrant.keeps_pluginMap (reentrant_plugin plugin).
Proof.
  split.
  - intros types st. simpl. unfold on_world.
    by destruct (condition plugin types (Reentrant.world st)).
  - intros params st. simpl. unfold on_world.
    by destruct (action plugin params (Reentrant.world st)).
Qed.

(** C9, amended. [run] itself never changes the map: when no plugin is
    registered under the key it throws and leaves the state as it is, and
    when the condition and the action of the plugin it finds leave the map
    as they find it, the map after [run] is the map before it, whether the
    action is invoked or not and whether a callback throws or not. *)
Theorem run_keeps_pluginMap_when_callbacks_do st K p :
  (Reentrant.pluginMap (Reentrant.this st) !! K = None ->
     Reentrant.run objects K p st = (inl NotRegistered, st))
  /\ ((forall plugin,
         Reentrant.pluginMap (Reentrant.this st) !! K = Some plugin ->
         Reentrant.keeps_pluginMap (objects plugin)) ->
      Reentrant.pluginMap (Reentrant.this (snd (Reentrant.run objects K p st)))
      = Reentrant.pluginMap (Reentrant.this st)).
Proof.
  split; [apply reentrant_run_None|].
  intros Hkeeps.
  destruct (Reentrant.pluginMap (Reentrant.this st) !! K) as [plugin|] eqn:HK.
  - destruct (Hkeeps plugin eq_refl) as [Hcond Hact].
    rewrite (reentrant_run_Some st K p plugin HK). unfold bind.
    specialize (Hcond K st).
    destruct (Reentrant.condition (objects plugin) K st) as [[e | [|]] st'];
      simpl in Hcond; [done | | done].
    by rewrite Hact.
  - by rewrite (reentrant_run_None st K p HK).
Qed.

(** On plugins whose callbacks act on the world only, the two controllers
    agree: from states that hold the same thing, the two [run] have the
    same outcome and leave states that hold the same thing. *)
Lemma reentrant_run_agrees (st0 : State World unknown) st K p :
  same_registry objects st0 st ->
  fst (run K p st0) = fst (Reentrant.run objects K p st)
  /\ same_registry objects (snd (run K p st0)) (snd (Reentrant.run objects K p st)).
Proof.
  intros [Hw Hm]. pose proof (Hm K) as HK.
  destruct (pluginMap (this st0) !! K) as [H|] eqn:H0;
    destruct (Reentrant.pluginMap (Reentrant.this st) !! K) as [plugin|] eqn:H1;
    simpl in HK; try discriminate.
  - injection HK as HK.
    rewrite (reentrant_run_Some st K p plugin H1). unfold bind.
    rewrite <- HK. simpl. unfold on_world. rewrite <- Hw.
    destruct (condition H K (world st0)) as [[e | [|]] w] eqn:Hc.
    + rewrite (run_condition_threw st0 K p H e w H0 Hc). by repeat split.
    + rewrite (run_matched st0 K p H w H0 Hc). simpl.
      destruct (action H p w) as [r w']. by repeat split.
    + rewrite (run_declined st0 K p H w H0 Hc). by repeat split.
  - rewrite (run_None st0 K p H0), (reentrant_run_None st K p H1).
    by repeat split.
Qed.

End ReentrantFacts.

Module ReentrantClaims.
Import Demo.

(** C9, as stated, fails: a plugin whose action calls
    [pluginController.clearPlugins()] is found under its key, its condition
    holds, and [run] returns normally with the map emptied. *)
Lemma run_with_clearing_action_changes_pluginMap :
  Reentrant.pluginMap (Reentrant.this ReentrantDemo.clearing_used) !! Tag "A" = Some 3
  /\ fst (Reentrant.run ReentrantDemo.objects (Tag "A") undefined
            ReentrantDemo.clearing_used) = inr tt
  /\ Reentrant.pluginMap
       (Reentrant.this
          (snd (Reentrant.run ReentrantDemo.objects (Tag "A") undefined
                  ReentrantDemo.clearing_used)))
     <> Reentrant.pluginMap (Reentrant.this ReentrantDemo.clearing_used).
Proof.
  split; [reflexivity|]. split; [reflexivity|].
  intros Heq.
  apply (f_equal (fun m : gmap Types Reentrant.PluginRef => m !! Tag "A")) in Heq.
  vm_compute in Heq. discriminate.
Qed.

Lemma run_keeps_pluginMap_when_callbacks_do_witness :
  Reentrant.pluginMap
    (Reentrant.this
       (snd (Reentrant.run ReentrantDemo.objects (Tag "A") undefined
               ReentrantDemo.installed)))
  = Reentrant.pluginMap (Reentrant.this ReentrantDemo.installed).
Proof.
  apply (run_keeps_pluginMap_when_callbacks_do
           ReentrantDemo.objects ReentrantDemo.installed (Tag "A") undefined).
  intros plugin Hplugin.
  assert (Href : plugin = 0) by (vm_compute in Hplugin; congruence).
  rewrite Href. apply reentrant_plugin_keeps_pluginMap.
Defined.

End ReentrantClaims.
